(** * trafficlog-flashlight: a shallow embedding of the supervisor, the
    install coordinator, the exit-code protocol and config-bpf.

    Go values are modelled as follows:
    - an [error] is a term of [goerr]; each constructor is one concrete
      error type of the program or of the Go library it uses, and
      [unwrap] is Go's [errors.Unwrap];
    - [errors.As] and [errors.Is] walk the [unwrap] chain;
    - operating-system calls whose result the program only inspects are
      inputs of the model (an environment record), and the calls the
      program makes are recorded in a trace;
    - a buffered channel is a record with its buffer, its capacity and
      whether it has been closed. *)

From Stdlib Require Import String Ascii List ZArith Bool Lia.
Import ListNotations.
Open Scope string_scope.
Open Scope Z_scope.
#[local] Set Warnings "-register-all".

(* ------------------------------------------------------------------ *)
(** ** Go errors *)

Inductive goerr : Type :=
| ErrNew (msg : string)                        (* errors.New(msg) *)
| ErrPermissionDenied                          (* tlproc.ErrPermissionDenied *)
| Errorf (format : string) (args : list string) (w : option goerr)
                                               (* fmt.Errorf; w is the %w operand *)
| ExitError (code : Z)                         (* *exec.ExitError *)
| FailedCheckError (msg : string)              (* *exitcodes.FailedCheckError *)
| OutdatedError (msg : string)                 (* *exitcodes.OutdatedError *)
| BadInputError (msg : string) (cause : option goerr)
                                               (* *exitcodes.BadInputError *)
| UnknownGroupError (name : string)            (* user.UnknownGroupError *)
| ErrProcessDone.                              (* os: process already finished *)

(** Go's [errors.Unwrap]: only wrapping [fmt.Errorf] values and
    [BadInputError] (through its [Unwrap] method) have an inner error. *)
Definition unwrap (e : goerr) : option goerr :=
  match e with
  | Errorf _ _ w => w
  | BadInputError _ c => c
  | _ => None
  end.

(** The target types [errors.As] is called with in the program. *)
Inductive as_target := TExitError | TFailedCheck | TOutdated | TBadInput | TUnknownGroup.

Definition has_type (t : as_target) (e : goerr) : bool :=
  match t, e with
  | TExitError, ExitError _ => true
  | TFailedCheck, FailedCheckError _ => true
  | TOutdated, OutdatedError _ => true
  | TBadInput, BadInputError _ _ => true
  | TUnknownGroup, UnknownGroupError _ => true
  | _, _ => false
  end.

(** [errors.As(err, &target)]. *)
Fixpoint errors_as (t : as_target) (e : goerr) : bool :=
  has_type t e ||
  match e with
  | Errorf _ _ (Some w) => errors_as t w
  | BadInputError _ (Some c) => errors_as t c
  | _ => false
  end.

(** [errors.As(err, &exitErr)] followed by [exitErr.ExitCode()]: the code
    of the first [*exec.ExitError] on the chain. *)
Fixpoint as_exit_code (e : goerr) : option Z :=
  match e with
  | ExitError c => Some c
  | Errorf _ _ (Some w) => as_exit_code w
  | BadInputError _ (Some c) => as_exit_code c
  | _ => None
  end.

(** [errors.Is(err, ErrPermissionDenied)]. *)
Fixpoint is_permission_denied (e : goerr) : bool :=
  match e with
  | ErrPermissionDenied => true
  | Errorf _ _ (Some w) => is_permission_denied w
  | BadInputError _ (Some c) => is_permission_denied c
  | _ => false
  end.

(* ------------------------------------------------------------------ *)
(** ** internal/exitcodes *)

Module exitcodes.

(** [UnexpectedFailure = iota + 1; BadInput; FailedCheck; Outdated]. *)
Definition UnexpectedFailure : Z := 1.
Definition BadInput : Z := 2.
Definition FailedCheck : Z := 3.
Definition Outdated : Z := 4.

Definition ErrorFailedCheck (msg : string) : goerr := FailedCheckError msg.
Definition ErrorOutdated (msg : string) : goerr := OutdatedError msg.
Definition ErrorBadInput (msg : string) (cause : option goerr) : goerr :=
  BadInputError msg cause.

(** [ExitWith] prints [err] and exits; the model returns the exit code. *)
Definition ExitWith (err : goerr) : Z :=
  if errors_as TFailedCheck err then FailedCheck
  else if errors_as TOutdated err then Outdated
  else if errors_as TBadInput err then BadInput
  else UnexpectedFailure.

Definition ErrorFromCode (code : Z) (msg : string) : goerr :=
  if code =? FailedCheck then ErrorFailedCheck msg
  else if code =? BadInput then ErrorBadInput msg None
  else if code =? Outdated then ErrorOutdated msg
  else ErrNew msg.

End exitcodes.

(* ------------------------------------------------------------------ *)
(** ** Byte strings: [bytes.TrimSpace], [bytes.Split] on newlines *)

Definition nl : ascii := Ascii.ascii_of_nat 10.
Definition cr : ascii := Ascii.ascii_of_nat 13.

(** ASCII white space as recognised by [bytes.TrimSpace] (the model
    covers the ASCII part of its Unicode space set). *)
Definition is_space (c : ascii) : bool :=
  let n := Ascii.nat_of_ascii c in
  (Nat.eqb n 32 || Nat.eqb n 9 || Nat.eqb n 10 || Nat.eqb n 11
   || Nat.eqb n 12 || Nat.eqb n 13)%bool.

Fixpoint trim_left (s : string) : string :=
  match s with
  | EmptyString => EmptyString
  | String c r => if is_space c then trim_left r else s
  end.

Definition rev_string (s : string) : string :=
  string_of_list_ascii (List.rev (list_ascii_of_string s)).

Definition trim_space (s : string) : string :=
  rev_string (trim_left (rev_string (trim_left s))).

(** [bytes.Split(s, "\n")] with separator byte [sep]. *)
Fixpoint split_on (sep : ascii) (s : string) : list string :=
  match s with
  | EmptyString => [EmptyString]
  | String c r =>
      if Ascii.eqb c sep then EmptyString :: split_on sep r
      else match split_on sep r with
           | w :: ws => String c w :: ws
           | [] => [String c EmptyString]
           end
  end.

(** The string holds neither a newline nor a carriage return. *)
Fixpoint no_line_break (s : string) : bool :=
  match s with
  | EmptyString => true
  | String c r => negb (Ascii.eqb c nl || Ascii.eqb c cr) && no_line_break r
  end.

(** The last byte of a string, and the string without it. *)
Fixpoint last_char (s : string) : option ascii :=
  match s with
  | EmptyString => None
  | String c EmptyString => Some c
  | String _ r => last_char r
  end.

Fixpoint drop_last (s : string) : string :=
  match s with
  | EmptyString => EmptyString
  | String _ EmptyString => EmptyString
  | String c r => String c (drop_last r)
  end.

(** [lastLine] of install.go. *)
Definition lastLine (b : string) : string :=
  List.last (split_on nl (trim_space b)) EmptyString.

(** [fmtOutputForLog] of install.go. *)
Definition fmtOutputForLog (cmdOutput : string) : string :=
  let cmdOutput := trim_space cmdOutput in
  match split_on nl cmdOutput with
  | [line] => line
  | _ => String nl cmdOutput
  end.

(* ------------------------------------------------------------------ *)
(** ** tlproc.Install (install.go, the directory-based variant) *)

Module Install.

(** The result of [CombinedOutput]: combined output and error. *)
Record cmd_result := mk_result { output : string; err : option goerr }.

(** [isPermissionError]: on darwin, an [*exec.ExitError] anywhere on the
    chain of the elevate error. *)
Definition isPermissionError (goos : string) (elevateErr : goerr) : bool :=
  if String.eqb goos "darwin" then errors_as TExitError elevateErr else false.

(** [tlconfigExec.run]: [raw] is the result of the command the method
    executes, through elevate when [prompt] is not empty and directly
    otherwise. *)
Definition run (goos prompt : string) (raw : cmd_result) : cmd_result :=
  if String.eqb prompt "" then raw
  else match err raw with
       | Some e => if isPermissionError goos e
                   then mk_result (output raw) (Some ErrPermissionDenied)
                   else raw
       | None => raw
       end.

(** The tlconfig invocations Install makes, in order. *)
Inductive call := CheckRun | ElevatedRun (prompt icon : string).

(** The machine Install runs on: its GOOS, whether the set-up steps
    before the first check (uninstall sentinel, install directory,
    temporary resources, asset writes, loading tlconfig) fail and with
    which error, and the raw results of the three tlconfig runs. *)
Record env := mk_env {
  goos : string;
  setup : option goerr;
  check1 : cmd_result;
  apply : cmd_result;
  check2 : cmd_result
}.

Record InstallOptions := mk_opts { Overwrite : bool }.

(** The two booleans Install derives from a check run: (failedCheck,
    outdated).  [prev] are the values the variables hold before the
    assignment, kept when the error is no [*exec.ExitError]. *)
Definition classify (r : cmd_result) (prev : bool * bool) : bool * bool :=
  match err r with
  | Some e =>
      match as_exit_code e with
      | Some c => (c =? exitcodes.FailedCheck, c =? exitcodes.Outdated)
      | None => prev
      end
  | None => prev
  end.

(** The exit code of a run that failed with an [*exec.ExitError]. *)
Definition exit_code_of (r : cmd_result) : option Z :=
  match err r with Some e => as_exit_code e | None => None end.

Definition with_last_line (output : string) (e : goerr) : goerr :=
  if String.eqb output "" then e
  else Errorf "%w: %s" [lastLine output] (Some e).

(** The post-install check of [Install]: on macOS elevate obscures the
    exit code of the elevated command, so tlconfig is run again with
    [-test]; [r3] is the result of that run. *)
Definition verify (r3 : cmd_result) (opts : InstallOptions) : option goerr :=
  let '(failedCheck, outdated) := classify r3 (false, false) in
  if failedCheck || (outdated && Overwrite opts) then
    Some (ErrNew (if String.eqb (output r3) ""
                  then "unexpected configuration failure"
                  else "unexpected configuration failure: " ++ lastLine (output r3)))
  else match err r3 with
  | Some _ =>
      Some (ErrNew (if String.eqb (output r3) ""
                    then "unexpected failure running post-install check"
                    else "unexpected failure running post-install check: "
                         ++ lastLine (output r3)))
  | None => None
  end.

(** Configure system: the elevated run, then the post-install check. *)
Definition configure (E : env) (prompt iconPath : string) (opts : InstallOptions)
  : list call * option goerr :=
  let r2 := run (goos E) prompt (apply E) in
  match err r2 with
  | Some e =>
      ([ElevatedRun prompt iconPath],
       Some (Errorf "failed to run tlconfig: %w" []
               (Some (with_last_line (output r2) e))))
  | None =>
      ([ElevatedRun prompt iconPath; CheckRun],
       verify (run (goos E) "" (check2 E)) opts)
  end.

(** [Install(dir, user, prompt, iconPath, opts)]: the trace of tlconfig
    calls and the returned error. *)
Definition Install (E : env) (prompt iconPath : string) (opts : InstallOptions)
  : list call * option goerr :=
  if negb (String.eqb (goos E) "darwin")
  then ([], Some (ErrNew "unsupported platform"))
  else match setup E with
  | Some e => ([], Some e)
  | None =>
    (* Check existing system configuration. *)
    let r1 := run (goos E) "" (check1 E) in
    let '(failedCheck, outdated) := classify r1 (false, false) in
    if failedCheck || (outdated && Overwrite opts) then
      let '(trace, ret) := configure E prompt iconPath opts in
      (CheckRun :: trace, ret)
    else match err r1 with
    | None => ([CheckRun], None)
    | Some e =>
        if outdated && negb (Overwrite opts) then ([CheckRun], None)
        else ([CheckRun],
              Some (Errorf "failed to run tlconfig -test: %w" []
                      (Some (with_last_line (output r1) e))))
    end
  end.

(** Whether the first check run sends Install to the elevated run. *)
Definition needs_change (E : env) (opts : InstallOptions) : Prop :=
  exit_code_of (check1 E) = Some exitcodes.FailedCheck \/
  (exit_code_of (check1 E) = Some exitcodes.Outdated /\ Overwrite opts = true).

End Install.

(* ------------------------------------------------------------------ *)
(** ** tlproc: the process supervisor (tlproc.go) *)

Module Supervisor.

(** A Go computation that returns or panics. *)
Inductive outcome (A : Type) := Ret (x : A) | Panic (msg : string).
Arguments Ret {A} x.
Arguments Panic {A} msg.

Definition bind {A B} (m : outcome A) (k : A -> outcome B) : outcome B :=
  match m with Ret x => k x | Panic msg => Panic msg end.

Notation "x <- m ;; k" := (bind m (fun x => k))
  (at level 61, m at next level, right associativity).

(** [channelBufferSize]. *)
Definition channelBufferSize : nat := 10.

(** A buffered Go channel. *)
Record chan (A : Type) := mk_chan { buf : list A; cap : nat; cclosed : bool }.
Arguments mk_chan {A} buf cap cclosed.
Arguments buf {A} c.
Arguments cap {A} c.
Arguments cclosed {A} c.

Definition make_chan {A} (n : nat) : chan A := mk_chan [] n false.

(** [close(c)]: closing a closed channel panics. *)
Definition close {A} (c : chan A) : outcome (chan A) :=
  if cclosed c then Panic "close of closed channel"
  else Ret (mk_chan (buf c) (cap c) true).

(** [select { case c <- x: default: }]: a send on a closed channel
    panics; a full buffer takes the default branch. *)
Definition try_send {A} (c : chan A) (x : A) : outcome (chan A) :=
  if cclosed c then Panic "send on closed channel"
  else if Nat.ltb (length (buf c)) (cap c)
  then Ret (mk_chan (buf c ++ [x]) (cap c) false)
  else Ret c.

(** A consumer's receive from a channel with a buffered value. *)
Definition recv {A} (c : chan A) : option (A * chan A) :=
  match buf c with
  | x :: r => Some (x, mk_chan r (cap c) (cclosed c))
  | [] => None
  end.

Section Process.
Variable CaptureStats : Type.

(** [TrafficLogProcess]: the OS process (alive or not), the two
    output channels and the unbuffered [closed] channel (nothing is
    ever sent on it). *)
Record TrafficLogProcess := mk_tlp {
  proc_alive : bool;
  errC : chan goerr;
  statsC : chan CaptureStats;
  closed : chan unit
}.

Definition set_errC (p : TrafficLogProcess) c :=
  mk_tlp (proc_alive p) c (statsC p) (closed p).
Definition set_statsC (p : TrafficLogProcess) c :=
  mk_tlp (proc_alive p) (errC p) c (closed p).

(** The value New returns once the server is up. *)
Definition started : TrafficLogProcess :=
  mk_tlp true (make_chan channelBufferSize) (make_chan channelBufferSize) (make_chan 0).

(** [p.proc.Kill()]. *)
Definition kill (p : TrafficLogProcess) : TrafficLogProcess * option goerr :=
  if proc_alive p then (mk_tlp false (errC p) (statsC p) (closed p), None)
  else (p, Some ErrProcessDone).

(** [Close], under [closedMx]:
<<
    select {
    case <-p.closed:
        close(p.closed); close(p.errC); close(p.statsC)
        return p.proc.Kill()
    default:
        return nil
    }
>>
    Nothing is ever sent on [p.closed], so the receive is ready exactly
    when [p.closed] has been closed. *)
Definition Close (p : TrafficLogProcess) : outcome (TrafficLogProcess * option goerr) :=
  if cclosed (closed p) then
    c <- close (closed p) ;;
    e <- close (errC p) ;;
    s <- close (statsC p) ;;
    Ret (kill (mk_tlp (proc_alive p) e s c))
  else Ret (p, None).

(** [sendError], under [closedMx]. *)
Definition sendError (p : TrafficLogProcess) (err : goerr) : outcome TrafficLogProcess :=
  if cclosed (closed p) then Ret p
  else c <- try_send (errC p) err ;; Ret (set_errC p c).

(** [sendStats], under [closedMx]. *)
Definition sendStats (p : TrafficLogProcess) (stats : CaptureStats)
  : outcome TrafficLogProcess :=
  if cclosed (closed p) then Ret p
  else c <- try_send (statsC p) stats ;; Ret (set_statsC p c).

(** The atomic steps of a running supervisor: every method that takes
    [closedMx] is one step, the process may die at any time, and
    consumers may read from the output channels. *)
Inductive step : TrafficLogProcess -> TrafficLogProcess -> Prop :=
| step_close p p' r : Close p = Ret (p', r) -> step p p'
| step_send_error p p' e : sendError p e = Ret p' -> step p p'
| step_send_stats p p' s : sendStats p s = Ret p' -> step p p'
| step_proc_exit p :
    step p (mk_tlp false (errC p) (statsC p) (closed p))
| step_recv_err p x c : recv (errC p) = Some (x, c) -> step p (set_errC p c)
| step_recv_stats p x c : recv (statsC p) = Some (x, c) -> step p (set_statsC p c).

Inductive reachable : TrafficLogProcess -> Prop :=
| reach_start : reachable started
| reach_step p p' : reachable p -> step p p' -> reachable p'.

End Process.

Arguments mk_tlp {CaptureStats}.
Arguments proc_alive {CaptureStats}.
Arguments errC {CaptureStats}.
Arguments statsC {CaptureStats}.
Arguments closed {CaptureStats}.
Arguments set_errC {CaptureStats}.
Arguments set_statsC {CaptureStats}.
Arguments started {CaptureStats}.
Arguments kill {CaptureStats}.
Arguments Close {CaptureStats}.
Arguments sendError {CaptureStats}.
Arguments sendStats {CaptureStats}.
Arguments step {CaptureStats}.
Arguments reachable {CaptureStats}.

(** *** Options (tlproc.go) *)

(** The fields of [Options] the start sequence reads; durations are
    [time.Duration] nanosecond counts. *)
Record Options := mk_options {
  StartTimeout : Z;
  RequestTimeout : Z
}.

Definition MaxInt64 : Z := 2 ^ 63 - 1.
Definition DefaultRequestTimeout : Z := 5 * 1000000000.

Definition startTimeout (opts : Options) : Z :=
  if StartTimeout opts =? 0 then MaxInt64 else StartTimeout opts.

Definition requestTimeout (opts : Options) : Z :=
  if RequestTimeout opts =? 0 then DefaultRequestTimeout else RequestTimeout opts.

(** [if opts == nil { opts = &Options{} }] at the top of New. *)
Definition New_opts (opts : option Options) : Options :=
  match opts with Some o => o | None => mk_options 0 0 end.

(** [Options.statsInterval]: [DefaultStatsInterval] and
    [MinimumStatsInterval] are constants of the trafficlog package, and
    [StatsInterval] is the field of the embedded [trafficlog.Options]. *)
Definition statsInterval (DefaultStatsInterval MinimumStatsInterval StatsInterval : Z) : Z :=
  if StatsInterval <=? 0 then DefaultStatsInterval
  else if StatsInterval <? MinimumStatsInterval then MinimumStatsInterval
  else StatsInterval.

(** The three cases of the select that ends New. *)
Inductive start_case := StartError | StartTimedOut | StartServerUp.

(** [time.After(d)] fires [d] nanoseconds after the select is entered
    (at once for d <= 0). *)
Definition after_fires (d : Z) : Z := Z.max 0 d.

(** The select of New: [errAt] and [readyAt] are the times (after the
    select is entered) at which a value arrives on [errC] and at which
    [serverUp] is closed, if ever.  A case can be taken when its event
    has happened no later than the others; ties are resolved by Go at
    random, so all tied cases are possible. *)
Inductive start_select (errAt readyAt : option Z) (timeout : Z) : start_case -> Prop :=
| sel_error t :
    errAt = Some t -> t <= after_fires timeout ->
    (forall r, readyAt = Some r -> t <= r) ->
    start_select errAt readyAt timeout StartError
| sel_timeout :
    (forall t, errAt = Some t -> after_fires timeout <= t) ->
    (forall r, readyAt = Some r -> after_fires timeout <= r) ->
    start_select errAt readyAt timeout StartTimedOut
| sel_up r :
    readyAt = Some r -> r <= after_fires timeout ->
    (forall t, errAt = Some t -> r <= t) ->
    start_select errAt readyAt timeout StartServerUp.

(** *** The standard-error line protocol *)

Definition errorPrefix : string := "error: ".
Definition statsPrefix : string := "stats: ".

(** [strings.HasPrefix] and [strings.TrimPrefix]. *)
Definition HasPrefix (s pre : string) : bool := String.prefix pre s.
Definition TrimPrefix (s pre : string) : string :=
  if HasPrefix s pre
  then String.substring (String.length pre) (String.length s - String.length pre) s
  else s.

(** [bufio.MaxScanTokenSize]. *)
Definition MaxScanTokenSize : Z := 65536.

(** [bufio.ScanLines] drops a trailing carriage return. *)
Definition dropCR (line : string) : string :=
  match last_char line with
  | Some c => if Ascii.eqb c cr then drop_last line else line
  | None => line
  end.

Fixpoint take_while {A} (f : A -> bool) (l : list A) : list A :=
  match l with
  | x :: r => if f x then x :: take_while f r else []
  | [] => []
  end.

(** The tokens a [bufio.Scanner] with [ScanLines] yields on a stream:
    the newline-terminated lines, then the unterminated rest if it is
    not empty; scanning stops at the first line that does not fit, with
    its newline, in the maximal token buffer. *)
Definition scan_lines (stream : string) : list string :=
  let segs := split_on nl stream in
  let rest := List.last segs EmptyString in
  let lines := List.app (removelast segs) (if String.eqb rest "" then [] else [rest]) in
  map dropCR
    (take_while (fun l => Z.of_nat (String.length l) + 1 <=? MaxScanTokenSize) lines).

(** The line tlserver writes for a statistics value [b] (already
    JSON-encoded): [fmt.Fprintf(os.Stderr, "%s%s\n", *statsPrefix, b)]. *)
Definition server_stats_line (prefix b : string) : string :=
  prefix ++ b ++ String nl EmptyString.

Section Watch.
Variable CaptureStats : Type.
(** [json.Unmarshal] into a [trafficlog.CaptureStats] (an external
    type and library). *)
Variable unmarshal : string -> CaptureStats + goerr.

(** One iteration of the loop of [watchStderr]. *)
Definition watch_line (p : TrafficLogProcess CaptureStats) (line : string)
  : outcome (TrafficLogProcess CaptureStats) :=
  if HasPrefix line errorPrefix then
    sendError p (ErrNew (TrimPrefix line errorPrefix))
  else if HasPrefix line statsPrefix then
    let line := TrimPrefix line statsPrefix in
    match unmarshal line with
    | inr err => sendError p (Errorf "failed to unmarshal stats: %w" [] (Some err))
    | inl stats => sendStats p stats
    end
  else
    (* Other messages are sometimes printed, but we don't care about these. *)
    Ret p.

Fixpoint watch_lines (p : TrafficLogProcess CaptureStats) (lines : list string)
  : outcome (TrafficLogProcess CaptureStats) :=
  match lines with
  | [] => Ret p
  | line :: rest => p' <- watch_line p line ;; watch_lines p' rest
  end.

(** [watchStderr] on the whole combined stream. *)
Definition watchStderr (p : TrafficLogProcess CaptureStats) (stderr : string)
  : outcome (TrafficLogProcess CaptureStats) :=
  watch_lines p (scan_lines stderr).

End Watch.

Arguments watch_line {CaptureStats}.
Arguments watch_lines {CaptureStats}.
Arguments watchStderr {CaptureStats}.

End Supervisor.

(* ------------------------------------------------------------------ *)
(** ** config-bpf (internal/cmd/config-bpf/main.go, the variant with exit codes) *)

Module ConfigBPF.

Definition bpfGroup : string := "access_bpf".
Definition maxCreatedDevices : Z := 256.

(** The operating-system calls [main] makes. *)
Inductive oscall :=
| CreateFile (path : string)        (* os.Create: creates or truncates *)
| LookupGroup (name : string)       (* user.LookupGroup *)
| WalkDev                           (* filepath.Walk("/dev", ...) *)
| Sysctl                            (* sysctl -n debug.bpf_maxdevices *)
| OpenRead (device : Z)             (* triggerNextBPFDevice: open and empty read *)
| StatDev (path : string)           (* os.Stat *)
| Chown (path : string) (gid : Z)   (* os.Chown(path, -1, gid) *)
| Chmod (path : string) (mode : Z). (* os.Chmod *)

(** The calls that change the system. *)
Definition mutating (c : oscall) : bool :=
  match c with
  | CreateFile _ | OpenRead _ | Chown _ _ | Chmod _ _ => true
  | _ => false
  end.

(** The command-line flags. *)
Record flags := mk_flags { testMode : bool; stdoutFile : string; stderrFile : string }.

(** What the calls return on the machine: the GID string of the group
    ([None]: the lookup fails; [Some None]: [strconv.Atoi] rejects it),
    the non-directory paths the two walks of /dev visit ([None]: the
    walk fails), the sysctl value, whether the empty read of /dev/bpfN
    succeeds, the GID and mode bits of each device ([None]: os.Stat
    fails), and whether chown and chmod succeed. *)
Record env := mk_env {
  group_gid : option (option Z);
  dev_entries : option (list string);
  sysctl_max : option Z;
  open_read_ok : Z -> bool;
  dev_entries_after : option (list string);
  dev_stat : string -> option (Z * Z);
  chown_ok : string -> bool;
  chmod_ok : string -> bool
}.

(** The trace of calls, and the end of a run: [Done] goes on, [Exited]
    is [os.Exit] through [exitcodes.ExitWith]. *)
Inductive res (A : Type) := Done (x : A) | Exited (code : Z).
Arguments Done {A} x.
Arguments Exited {A} code.

Definition M (A : Type) := list oscall -> list oscall * res A.

Definition ret {A} (x : A) : M A := fun tr => (tr, Done x).
Definition bind {A B} (m : M A) (k : A -> M B) : M B :=
  fun tr => match m tr with
            | (tr', Done x) => k x tr'
            | (tr', Exited c) => (tr', Exited c)
            end.
Definition emit (c : oscall) : M unit := fun tr => (List.app tr [c], Done tt).
Definition ExitWith {A} (err : goerr) : M A :=
  fun tr => (tr, Exited (exitcodes.ExitWith err)).

Notation "x <- m ;; k" := (bind m (fun x => k))
  (at level 61, m at next level, right associativity).
Notation "m ;;; k" := (bind m (fun _ => k)) (at level 61, right associativity).

(** *** The device regexp [^/dev/bpf([0-9]+)$] and [strconv.Atoi] *)

Definition digit_value (c : ascii) : option Z :=
  let n := Z.of_nat (Ascii.nat_of_ascii c) in
  if (48 <=? n) && (n <=? 57) then Some (n - 48) else None.

Fixpoint digits_value (acc : Z) (s : string) : option Z :=
  match s with
  | EmptyString => Some acc
  | String c r =>
      match digit_value c with
      | Some d => digits_value (acc * 10 + d) r
      | None => None
      end
  end.

Definition devPrefix : string := "/dev/bpf".

(** The digits of the submatch, when [path] matches the regexp. *)
Definition bpf_submatch (path : string) : option string :=
  if String.prefix devPrefix path then
    let d := String.substring (String.length devPrefix)
               (String.length path - String.length devPrefix) path in
    match d, digits_value 0 d with
    | EmptyString, _ => None
    | _, Some _ => Some d
    | _, None => None
    end
  else None.

Definition MaxInt64 : Z := 2 ^ 63 - 1.

(** [strconv.Atoi] on a digit string: a range error above MaxInt64. *)
Definition Atoi_digits (d : string) : option Z :=
  match digits_value 0 d with
  | Some v => if v <=? MaxInt64 then Some v else None
  | None => None
  end.

(** The first walk: the highest device number found, from 0. *)
Definition start_device (entries : list string) : Z :=
  fold_left (fun startDevice path =>
               match bpf_submatch path with
               | Some d => match Atoi_digits d with
                           | Some dev => if startDevice <? dev then dev else startDevice
                           | None => startDevice
                           end
               | None => startDevice
               end) entries 0.

Definition is_bpf_device (path : string) : bool :=
  match bpf_submatch path with Some _ => true | None => false end.

(** [getMaxBPFDevices]: the value and the error it returns. *)
Definition getMaxBPFDevices (E : env) : M (Z * option goerr) :=
  emit Sysctl ;;;
  match sysctl_max E with
  | None => ret (0, Some (Errorf "failed to run sysctl utility: %w" [] (Some (ErrNew "sysctl"))))
  | Some systemMax =>
      ret (if systemMax <? maxCreatedDevices then systemMax else maxCreatedDevices, None)
  end.

(** [for i := startDevice; i < endDevice-1; i++ { ... break on error }]:
    [fuel] counts the iterations left. *)
Fixpoint trigger_loop (E : env) (i : Z) (fuel : nat) : M unit :=
  match fuel with
  | O => ret tt
  | S fuel' =>
      emit (OpenRead i) ;;;
      if open_read_ok E i then trigger_loop E (i + 1) fuel' else ret tt
  end.

Definition groupRead : Z := 32.   (* 0b100000 *)

(** The body of the last loop of [main] for one device. *)
Definition check_device (E : env) (t : bool) (bpfGID : Z) (dev : string) : M unit :=
  emit (StatDev dev) ;;;
  match dev_stat E dev with
  | None => ExitWith (Errorf "failed to stat %s: %w" [dev] (Some (ErrNew "stat")))
  | Some (gid, mode) =>
      (if negb (gid =? bpfGID) then
         if t then ExitWith (exitcodes.ErrorFailedCheck (dev ++ " not owned by " ++ bpfGroup))
         else emit (Chown dev bpfGID) ;;;
              if chown_ok E dev then ret tt
              else ExitWith (Errorf "failed to assign %s to %s: %w" [dev; bpfGroup]
                               (Some (ErrNew "chown")))
       else ret tt) ;;;
      (if negb (Z.land mode groupRead =? groupRead) then
         if t then ExitWith (exitcodes.ErrorFailedCheck (dev ++ " does not have group read"))
         else emit (Chmod dev (Z.lor mode groupRead)) ;;;
              if chmod_ok E dev then ret tt
              else ExitWith (Errorf "failed to assign group read to %s: %w" [dev]
                               (Some (ErrNew "chmod")))
       else ret tt)
  end.

Fixpoint check_devices (E : env) (t : bool) (bpfGID : Z) (devs : list string) : M unit :=
  match devs with
  | [] => ret tt
  | dev :: rest => check_device E t bpfGID dev ;;; check_devices E t bpfGID rest
  end.

(** [main]. *)
Definition main (F : flags) (E : env) : M unit :=
  (* If the stdout and stderr files have been provided, clear old data by truncating. *)
  (if negb (String.eqb (stderrFile F) "") then emit (CreateFile (stderrFile F)) else ret tt) ;;;
  (if negb (String.eqb (stdoutFile F) "") then emit (CreateFile (stdoutFile F)) else ret tt) ;;;
  emit (LookupGroup bpfGroup) ;;;
  g <- (match group_gid E with
        | None => ExitWith (Errorf "failed to look up %s: %w" [bpfGroup]
                              (Some (UnknownGroupError bpfGroup)))
        | Some g => ret g
        end) ;;
  bpfGID <- (match g with
             | None => ExitWith (Errorf "failed to parse %s GID: %v" [bpfGroup] None)
             | Some gid => ret gid
             end) ;;
  emit WalkDev ;;;
  entries <- (match dev_entries E with
              | None => ExitWith (Errorf "failed to walk /dev: %w" [] (Some (ErrNew "walk")))
              | Some l => ret l
              end) ;;
  let startDevice := start_device entries in
  r <- getMaxBPFDevices E ;;
  endDevice <- (match r with
                | (_, Some err) => ExitWith (Errorf "unable to determine max BPF devices: %w" []
                                               (Some err))
                | (endDevice, None) => ret endDevice
                end) ;;
  (if negb (testMode F)
   then trigger_loop E startDevice (Z.to_nat (endDevice - 1 - startDevice))
   else ret tt) ;;;
  emit WalkDev ;;;
  bpfDevices <- (match dev_entries_after E with
                 | None => ExitWith (Errorf "failed to walk /dev: %w" [] (Some (ErrNew "walk")))
                 | Some l => ret (filter is_bpf_device l)
                 end) ;;
  match bpfDevices with
  | [] => ExitWith (ErrNew "found no BPF devices")
  | _ => check_devices E (testMode F) bpfGID bpfDevices
  end.

(** Running [main]: the calls made and the exit status (0 when [main]
    returns). *)
Definition run_main (F : flags) (E : env) : list oscall * Z :=
  match main F E [] with
  | (tr, Done _) => (tr, 0)
  | (tr, Exited c) => (tr, c)
  end.

End ConfigBPF.

(* ================================================================== *)
(** * Properties *)

(** ** Install coordinator *)

Section InstallProps.
Import Install.

(** C2: after the first check-mode run, Install returns nil without
    elevating when the run succeeds, elevates on FailedCheck or on
    Outdated with Overwrite, returns nil without elevating on Outdated
    without Overwrite, and returns an error for any other failure. *)
Theorem Install_first_check_branches (E : env) (prompt icon : string)
    (opts : InstallOptions) :
  goos E = "darwin" -> setup E = None ->
  let res := Install E prompt icon opts in
  (err (check1 E) = None -> res = ([CheckRun], None)) /\
  (forall e, err (check1 E) = Some e ->
     as_exit_code e = Some exitcodes.FailedCheck \/
     (as_exit_code e = Some exitcodes.Outdated /\ Overwrite opts = true) ->
     firstn 2 (fst res) = [CheckRun; ElevatedRun prompt icon]) /\
  (forall e, err (check1 E) = Some e ->
     as_exit_code e = Some exitcodes.Outdated -> Overwrite opts = false ->
     res = ([CheckRun], None)) /\
  (forall e, err (check1 E) = Some e ->
     as_exit_code e <> Some exitcodes.FailedCheck ->
     as_exit_code e <> Some exitcodes.Outdated ->
     fst res = [CheckRun] /\ exists e', snd res = Some e').
Proof.
  intros Hos Hsetup res; subst res.
  unfold Install; rewrite Hos, Hsetup; simpl.
  unfold run at 1; simpl.
  destruct (check1 E) as [o1 [e1|]]; simpl; unfold classify; simpl.
  - split; [discriminate|]. split; [|split].
    + intros e He [Hc|[Hc Hw]]; injection He as <-; rewrite Hc; cbn;
        [|rewrite Hw]; unfold configure; destruct (err (run _ prompt (apply E)));
        reflexivity.
    + intros e He Hc Hw; injection He as <-; rewrite Hc, Hw; reflexivity.
    + intros e He H3 H4; injection He as <-.
      destruct (as_exit_code e1) as [c|] eqn:Hc; [|cbn; eauto].
      assert (c <> exitcodes.FailedCheck) as Hf by congruence.
      assert (c <> exitcodes.Outdated) as Ho by congruence.
      apply Z.eqb_neq in Hf, Ho. rewrite Hf, Ho. cbn. eauto.
  - split; [intros _; reflexivity|].
    split; [|split]; intros ? He; discriminate.
Qed.

(** The first check of a machine whose configuration is missing exits
    with FailedCheck, and Install goes on to the elevated run. *)
Lemma Install_first_check_branches_witness :
  firstn 2 (fst (Install (mk_env "darwin" None (mk_result "" (Some (ExitError 3)))
                            (mk_result "" None) (mk_result "" None))
                   "Allow?" "icon.png" (mk_opts false)))
  = [CheckRun; ElevatedRun "Allow?" "icon.png"].
Proof.
  refine (proj1 (proj2 (Install_first_check_branches
            (mk_env "darwin" None (mk_result "" (Some (ExitError 3)))
               (mk_result "" None) (mk_result "" None))
            "Allow?" "icon.png" (mk_opts false) eq_refl eq_refl)) (ExitError 3) eq_refl _).
  left; reflexivity.
Defined.

Lemma Install_configures (E : env) prompt icon opts :
  goos E = "darwin" -> setup E = None -> needs_change E opts ->
  Install E prompt icon opts =
    (CheckRun :: fst (configure E prompt icon opts),
     snd (configure E prompt icon opts)).
Proof.
  intros Hos Hsetup Hn. unfold Install; rewrite Hos, Hsetup; cbn.
  unfold needs_change, exit_code_of in Hn.
  unfold classify; cbn.
  destruct (err (check1 E)) as [e1|]; [|destruct Hn as [Hn|[Hn _]]; discriminate].
  destruct Hn as [Hc|[Hc Hw]]; rewrite Hc; cbn; [|rewrite Hw];
    destruct (configure E prompt icon opts); reflexivity.
Qed.

(** C3: when the elevated run reports no error but the post-install
    check exits with FailedCheck, or with Outdated while Overwrite is
    set, Install returns an "unexpected configuration failure" error. *)
Theorem Install_post_check_failure (E : env) (prompt icon : string)
    (opts : InstallOptions) :
  goos E = "darwin" -> setup E = None -> needs_change E opts ->
  err (apply E) = None ->
  exit_code_of (check2 E) = Some exitcodes.FailedCheck \/
  (exit_code_of (check2 E) = Some exitcodes.Outdated /\ Overwrite opts = true) ->
  exists msg,
    Install E prompt icon opts =
      ([CheckRun; ElevatedRun prompt icon; CheckRun], Some (ErrNew msg)) /\
    prefix "unexpected configuration failure" msg = true.
Proof.
  intros Hos Hsetup Hn Happly H2.
  rewrite (Install_configures E prompt icon opts Hos Hsetup Hn).
  unfold configure, run; rewrite Hos, Happly; cbn.
  destruct (String.eqb prompt "") eqn:Hp; rewrite ?Happly; cbn;
  unfold verify, classify; unfold exit_code_of in H2;
  (destruct (err (check2 E)) as [e3|];
    [|destruct H2 as [H2|[H2 _]]; discriminate]);
  (destruct H2 as [Hc|[Hc Hw]]; rewrite Hc; cbn; [|rewrite ?Hw; cbn]);
  (eexists; split; [reflexivity|]);
  destruct (String.eqb (output (check2 E)) ""); reflexivity.
Qed.

(** Elevation reports success but the re-check still exits with
    FailedCheck. *)
Lemma Install_post_check_failure_witness :
  exists msg,
    Install (mk_env "darwin" None (mk_result "" (Some (ExitError 3)))
               (mk_result "" None) (mk_result "" (Some (ExitError 3))))
            "Allow?" "icon.png" (mk_opts false) =
      ([CheckRun; ElevatedRun "Allow?" "icon.png"; CheckRun], Some (ErrNew msg)) /\
    prefix "unexpected configuration failure" msg = true.
Proof.
  apply Install_post_check_failure; [reflexivity|reflexivity| |reflexivity|].
  - unfold needs_change; left; reflexivity.
  - left; reflexivity.
Defined.

(** C4: when the elevated run (prompt non-empty) fails on darwin with an
    [*exec.ExitError], the error Install returns wraps
    [ErrPermissionDenied]. *)
Theorem Install_permission_denied (E : env) (prompt icon : string)
    (opts : InstallOptions) (e : goerr) :
  goos E = "darwin" -> setup E = None -> needs_change E opts ->
  prompt <> "" ->
  err (apply E) = Some e -> errors_as TExitError e = true ->
  exists e', snd (Install E prompt icon opts) = Some e' /\
             is_permission_denied e' = true.
Proof.
  intros Hos Hsetup Hn Hp Happly Hexit.
  rewrite (Install_configures E prompt icon opts Hos Hsetup Hn); cbn.
  unfold configure, run, isPermissionError; rewrite Hos.
  apply String.eqb_neq in Hp; rewrite Hp, Happly, Hexit; cbn.
  eexists; split; [reflexivity|].
  unfold with_last_line; destruct (String.eqb (output (apply E)) ""); reflexivity.
Qed.

(** The user declines the prompt: elevate exits with an ExitError. *)
Lemma Install_permission_denied_witness :
  exists e', snd (Install (mk_env "darwin" None (mk_result "" (Some (ExitError 3)))
                             (mk_result "" (Some (ExitError 1))) (mk_result "" None))
                          "Allow?" "icon.png" (mk_opts false)) = Some e' /\
             is_permission_denied e' = true.
Proof.
  apply (Install_permission_denied _ _ _ _ (ExitError 1));
    [reflexivity|reflexivity| |discriminate|reflexivity|reflexivity].
  unfold needs_change; left; reflexivity.
Defined.

End InstallProps.

(** ** Exit-code protocol *)

(** C8: [ExitWith (ErrorFromCode code msg)] exits with [code] for the
    three codes of the taxonomy, and with UnexpectedFailure for every
    other code. *)
Theorem ExitWith_ErrorFromCode (code : Z) (msg : string) :
  (In code [exitcodes.FailedCheck; exitcodes.BadInput; exitcodes.Outdated] ->
   exitcodes.ExitWith (exitcodes.ErrorFromCode code msg) = code) /\
  (~ In code [exitcodes.FailedCheck; exitcodes.BadInput; exitcodes.Outdated] ->
   exitcodes.ExitWith (exitcodes.ErrorFromCode code msg) = exitcodes.UnexpectedFailure).
Proof.
  unfold exitcodes.ErrorFromCode, exitcodes.ExitWith; split.
  - intros [<-|[<-|[<-|[]]]]; reflexivity.
  - intros Hn.
    destruct (code =? exitcodes.FailedCheck) eqn:H1;
      [apply Z.eqb_eq in H1; subst; exfalso; apply Hn; simpl; auto|].
    destruct (code =? exitcodes.BadInput) eqn:H2;
      [apply Z.eqb_eq in H2; subst; exfalso; apply Hn; simpl; auto|].
    destruct (code =? exitcodes.Outdated) eqn:H3;
      [apply Z.eqb_eq in H3; subst; exfalso; apply Hn; simpl; auto|].
    reflexivity.
Qed.

(** ** Process supervisor *)

Module SupervisorProps.
Import Supervisor.

Example scan_lines_example :
  scan_lines ("a" ++ String nl ("b" ++ String cr (String nl "c"))) = ["a"; "b"; "c"].
Proof. reflexivity. Qed.

Section Invariant.
Variable CaptureStats : Type.

(** What every reachable state satisfies: [p.closed] and both output
    channels are open, and both have the capacity New gave them. *)
Definition inv (p : TrafficLogProcess CaptureStats) : Prop :=
  cclosed (closed p) = false /\ cclosed (errC p) = false /\
  cclosed (statsC p) = false /\
  cap (errC p) = channelBufferSize /\ cap (statsC p) = channelBufferSize.

Lemma try_send_open {A} (c : chan A) x :
  cclosed c = false ->
  try_send c x = Ret (if Nat.ltb (length (buf c)) (cap c)
                      then mk_chan (buf c ++ [x]) (cap c) false else c).
Proof. intros H; unfold try_send; rewrite H; destruct (Nat.ltb (length (buf c)) (cap c)); reflexivity. Qed.

Lemma step_inv p p' : step p p' -> inv p -> inv p'.
Proof.
  intros Hs; destruct Hs as
    [q q' r Hc | q q' e He | q q' st He | q | q x c Hr | q x c Hr];
    intros (H1 & H2 & H3 & H4 & H5).
  - unfold Close in Hc; rewrite H1 in Hc; injection Hc as <- _.
    repeat split; assumption.
  - unfold sendError in He; rewrite H1, (try_send_open (errC q) e H2) in He.
    destruct (Nat.ltb (length (buf (errC q))) (cap (errC q)));
      cbn in He; injection He as <-; repeat split; cbn; auto.
  - unfold sendStats in He; rewrite H1, (try_send_open (statsC q) st H3) in He.
    destruct (Nat.ltb (length (buf (statsC q))) (cap (statsC q)));
      cbn in He; injection He as <-; repeat split; cbn; auto.
  - repeat split; assumption.
  - unfold recv in Hr; destruct (buf (errC q)); [discriminate|].
    injection Hr as _ <-; repeat split; cbn; assumption.
  - unfold recv in Hr; destruct (buf (statsC q)); [discriminate|].
    injection Hr as _ <-; repeat split; cbn; assumption.
Qed.

Lemma reachable_inv p : reachable p -> inv p.
Proof.
  induction 1 as [|p p' _ IH Hs].
  - repeat split.
  - exact (step_inv p p' Hs IH).
Qed.

End Invariant.

(** C1 (as the code stands): on every state a started supervisor can
    reach, [Close] returns nil and changes nothing: the process is not
    killed and neither output channel is closed, because the receive
    from [p.closed] is never ready and the default branch is taken. *)
Theorem Close_is_noop (CaptureStats : Type) (p : TrafficLogProcess CaptureStats) :
  reachable p -> Close p = Ret (p, None).
Proof.
  intros Hr; destruct (reachable_inv _ p Hr) as [H1 _].
  unfold Close; rewrite H1; reflexivity.
Qed.

(** The supervisor New returns. *)
Lemma Close_is_noop_witness :
  reachable (@started nat) /\ Close (@started nat) = Ret (@started nat, None).
Proof.
  split; [apply reach_start|].
  apply (Close_is_noop nat (@started nat)); apply reach_start.
Defined.

(** C7: [sendError] and [sendStats] never block: on a closed supervisor
    they discard the event without touching the channel; on every
    reachable state both channels are open with capacity 10, the event
    is appended when the buffer has room and dropped when it is full,
    and the call returns (no send on a closed channel, no panic).  Each
    call is one atomic step because it holds [closedMx], the mutex
    [Close] takes. *)
Theorem send_nonblocking (CaptureStats : Type) (p : TrafficLogProcess CaptureStats)
    (e : goerr) (st : CaptureStats) :
  (cclosed (closed p) = true -> sendError p e = Ret p /\ sendStats p st = Ret p) /\
  (reachable p ->
     cap (errC p) = 10%nat /\ cap (statsC p) = 10%nat /\
     sendError p e =
       Ret (if Nat.ltb (length (buf (errC p))) 10
            then set_errC p (mk_chan (buf (errC p) ++ [e]) 10 false) else p) /\
     sendStats p st =
       Ret (if Nat.ltb (length (buf (statsC p))) 10
            then set_statsC p (mk_chan (buf (statsC p) ++ [st]) 10 false) else p)).
Proof.
  split.
  - intros Hc; unfold sendError, sendStats; rewrite Hc; split; reflexivity.
  - intros Hr; destruct (reachable_inv _ p Hr) as (H1 & H2 & H3 & H4 & H5).
    unfold channelBufferSize in H4, H5.
    unfold sendError, sendStats; rewrite H1, (try_send_open (errC p) e H2),
      (try_send_open (statsC p) st H3), H4, H5.
    repeat split.
    + destruct (Nat.ltb (length (buf (errC p))) 10); cbn; [reflexivity|].
      destruct p; reflexivity.
    + destruct (Nat.ltb (length (buf (statsC p))) 10); cbn; [reflexivity|].
      destruct p; reflexivity.
Qed.

(** *** String lemmas for the line protocol *)

Lemma prefix_app (pre rest : string) : String.prefix pre (pre ++ rest) = true.
Proof.
  induction pre as [|c pre IH]; [destruct rest; reflexivity|].
  cbn; destruct (ascii_dec c c) as [_|Hn]; [exact IH|contradiction].
Qed.

Lemma length_app (a b : string) : String.length (a ++ b) = (String.length a + String.length b)%nat.
Proof. induction a as [|c a IH]; cbn; [reflexivity|now rewrite IH]. Qed.

Lemma append_assoc_str (a b c : string) : a ++ (b ++ c) = (a ++ b) ++ c.
Proof. induction a as [|x a IH]; cbn; [reflexivity|now rewrite IH]. Qed.

Lemma substring_all (b : string) : String.substring 0 (String.length b) b = b.
Proof. induction b as [|c b IH]; cbn; [reflexivity|now rewrite IH]. Qed.

Lemma substring_app (a b : string) :
  String.substring (String.length a) (String.length b) (a ++ b) = b.
Proof. induction a as [|c a IH]; cbn; [apply substring_all|exact IH]. Qed.

Lemma TrimPrefix_app (pre rest : string) : TrimPrefix (pre ++ rest) pre = rest.
Proof.
  unfold TrimPrefix, HasPrefix; rewrite prefix_app, length_app.
  replace (String.length pre + String.length rest - String.length pre)%nat
    with (String.length rest) by lia.
  apply substring_app.
Qed.

Lemma no_line_break_app (a b : string) :
  no_line_break (a ++ b) = no_line_break a && no_line_break b.
Proof.
  induction a as [|c a IH]; cbn; [reflexivity|].
  rewrite IH; apply andb_assoc.
Qed.

Lemma split_on_nl_line (x rest : string) :
  no_line_break x = true ->
  split_on nl (x ++ String nl rest) = x :: split_on nl rest.
Proof.
  induction x as [|c x IH]; intros H.
  - reflexivity.
  - cbn in H; apply andb_prop in H as [Hc Hx].
    apply negb_true_iff, orb_false_iff in Hc as [Hc _].
    change (Ascii.eqb c nl = false) in Hc.
    cbn [split_on String.append]; rewrite Hc, (IH Hx); reflexivity.
Qed.

Lemma dropCR_no_line_break (x : string) : no_line_break x = true -> dropCR x = x.
Proof.
  unfold dropCR; intros H.
  assert (Hl : forall c, last_char x = Some c -> Ascii.eqb c cr = false).
  { induction x as [|d x IH]; intros c Hc; [discriminate|].
    cbn [no_line_break] in H; apply andb_prop in H as [Hd Hx].
    destruct x as [|d' x'].
    - injection Hc as <-. apply negb_true_iff, orb_false_iff in Hd as [_ Hd]; exact Hd.
    - exact (IH Hx c Hc). }
  destruct (last_char x) as [c|] eqn:Hc; [|reflexivity].
  rewrite (Hl c eq_refl); reflexivity.
Qed.

(** The scanner yields a protocol line written by tlserver as one token. *)
Lemma scan_lines_one (x : string) :
  no_line_break x = true -> Z.of_nat (String.length x) + 1 <= MaxScanTokenSize ->
  scan_lines (x ++ String nl EmptyString) = [x].
Proof.
  intros Hx Hlen; unfold scan_lines; rewrite (split_on_nl_line x "" Hx); cbn.
  apply Z.leb_le in Hlen; rewrite Hlen; cbn.
  rewrite (dropCR_no_line_break x Hx); reflexivity.
Qed.

Lemma sendError_returns (CaptureStats : Type) (p : TrafficLogProcess CaptureStats) e :
  inv CaptureStats p -> exists p', sendError p e = Ret p'.
Proof.
  intros (H1 & H2 & _); unfold sendError.
  rewrite H1, (try_send_open (errC p) e H2); eexists; reflexivity.
Qed.

Lemma sendStats_returns (CaptureStats : Type) (p : TrafficLogProcess CaptureStats) st :
  inv CaptureStats p -> exists p', sendStats p st = Ret p'.
Proof.
  intros (H1 & _ & H3 & _); unfold sendStats.
  rewrite H1, (try_send_open (statsC p) st H3); eexists; reflexivity.
Qed.

Section Watch.
Variable CaptureStats : Type.
Variable unmarshal : string -> CaptureStats + goerr.

(** C6: [watchStderr] turns a line [error: rest] into exactly one error
    event carrying [rest]; a line [stats: rest] into the statistics
    value [rest] decodes to, or, when decoding fails, into one error
    event; every other line into no event.  On a reachable state no
    line makes the watcher panic. *)
Theorem watch_line_classification (p : TrafficLogProcess CaptureStats) :
  (forall rest, watch_line unmarshal p (errorPrefix ++ rest) = sendError p (ErrNew rest)) /\
  (forall rest, watch_line unmarshal p (statsPrefix ++ rest) =
     match unmarshal rest with
     | inl stats => sendStats p stats
     | inr err => sendError p (Errorf "failed to unmarshal stats: %w" [] (Some err))
     end) /\
  (forall line, HasPrefix line errorPrefix = false -> HasPrefix line statsPrefix = false ->
     watch_line unmarshal p line = Ret p) /\
  (reachable p -> forall line, exists p', watch_line unmarshal p line = Ret p').
Proof.
  split; [|split; [|split]].
  - intros rest; unfold watch_line; unfold HasPrefix at 1; rewrite prefix_app.
    now rewrite TrimPrefix_app.
  - intros rest; unfold watch_line.
    assert (HasPrefix (statsPrefix ++ rest) errorPrefix = false) as He
      by reflexivity.
    rewrite He; unfold HasPrefix at 1; rewrite prefix_app, TrimPrefix_app.
    destruct (unmarshal rest); reflexivity.
  - intros line He Hs; unfold watch_line; rewrite He, Hs; reflexivity.
  - intros Hr line; pose proof (reachable_inv _ p Hr) as Hi.
    unfold watch_line.
    destruct (HasPrefix line errorPrefix); [apply sendError_returns, Hi|].
    destruct (HasPrefix line statsPrefix); [|eauto].
    destruct (unmarshal (TrimPrefix line statsPrefix)).
    + apply sendStats_returns, Hi.
    + apply sendError_returns, Hi.
Qed.

Variable marshal : CaptureStats -> string.

(** C5: the line tlserver prints for a statistics value [s] (the stats
    prefix, [json.Marshal(s)] and a newline) is delivered by
    [watchStderr] as [s] on the statistics channel, when the supervisor
    is open and the channel has room.  The encoder is assumed to be
    inverted by the decoder, to write no line break (JSON escapes
    them), and to fit the scanner's token buffer. *)
Theorem stats_line_roundtrip (p : TrafficLogProcess CaptureStats) (s : CaptureStats) :
  unmarshal (marshal s) = inl s ->
  no_line_break (marshal s) = true ->
  Z.of_nat (String.length (marshal s)) + 8 <= MaxScanTokenSize ->
  cclosed (closed p) = false -> cclosed (statsC p) = false ->
  (length (buf (statsC p)) < cap (statsC p))%nat ->
  watchStderr unmarshal p (server_stats_line statsPrefix (marshal s)) =
    Ret (set_statsC p (mk_chan (buf (statsC p) ++ [s]) (cap (statsC p)) false)).
Proof.
  intros Hdec Hnl Hlen Hc Hsc Hroom.
  unfold watchStderr, server_stats_line.
  rewrite append_assoc_str, scan_lines_one.
  - cbn [watch_lines]; unfold watch_line.
    assert (HasPrefix (statsPrefix ++ marshal s) errorPrefix = false) as He
      by reflexivity.
    rewrite He; unfold HasPrefix at 1; rewrite prefix_app, TrimPrefix_app, Hdec.
    unfold sendStats; rewrite Hc, (try_send_open (statsC p) s Hsc).
    apply Nat.ltb_lt in Hroom; rewrite Hroom; reflexivity.
  - rewrite no_line_break_app, Hnl; reflexivity.
  - rewrite length_app, Nat2Z.inj_add; cbn [String.length statsPrefix]; lia.
Qed.

End Watch.

(** C10: with [StartTimeout] zero, or with no options at all, [startTimeout]
    is [math.MaxInt64] nanoseconds; then, as soon as an error or the
    readiness signal arrives at some time before MaxInt64 nanoseconds,
    the select of New takes the error or the server-up case, and it
    never takes the timeout case. *)
Theorem startTimeout_zero_no_timeout (opts : option Options) :
  match opts with None => True | Some o => StartTimeout o = 0 end ->
  startTimeout (New_opts opts) = MaxInt64 /\
  forall errAt readyAt,
    (exists t, (errAt = Some t \/ readyAt = Some t) /\ t < MaxInt64) ->
    ~ start_select errAt readyAt (startTimeout (New_opts opts)) StartTimedOut /\
    exists c, c <> StartTimedOut /\ start_select errAt readyAt (startTimeout (New_opts opts)) c.
Proof.
  intros Ho.
  assert (Hs : startTimeout (New_opts opts) = MaxInt64).
  { destruct opts as [o|]; unfold startTimeout; cbn [New_opts StartTimeout];
      [rewrite Ho|]; reflexivity. }
  split; [exact Hs|]; rewrite Hs.
  assert (Ha : after_fires MaxInt64 = MaxInt64) by (unfold after_fires, MaxInt64; lia).
  intros errAt readyAt (t & Ht & Hlt); split.
  - intros Hsel; inversion Hsel as [| He Hr |]; subst.
    destruct Ht as [Ht|Ht]; [specialize (He t Ht)|specialize (Hr t Ht)]; lia.
  - destruct errAt as [te|], readyAt as [tr|];
      [| | |destruct Ht as [Ht|Ht]; discriminate].
    + destruct (Z.le_gt_cases te tr).
      * exists StartError; split; [discriminate|].
        apply (sel_error _ _ _ te); [reflexivity| |intros r Hr; injection Hr as <-; lia].
        rewrite Ha; destruct Ht as [Ht|Ht]; injection Ht as <-; lia.
      * exists StartServerUp; split; [discriminate|].
        apply (sel_up _ _ _ tr); [reflexivity| |intros t' Ht'; injection Ht' as <-; lia].
        rewrite Ha; destruct Ht as [Ht|Ht]; injection Ht as <-; lia.
    + exists StartError; split; [discriminate|].
      apply (sel_error _ _ _ te); [reflexivity| |discriminate].
      rewrite Ha; destruct Ht as [Ht|Ht]; [injection Ht as <-; lia|discriminate].
    + exists StartServerUp; split; [discriminate|].
      apply (sel_up _ _ _ tr); [reflexivity| |discriminate].
      rewrite Ha; destruct Ht as [Ht|Ht]; [discriminate|injection Ht as <-; lia].
Qed.

(** Options with a request timeout and no start timeout. *)
Lemma startTimeout_zero_no_timeout_witness :
  startTimeout (New_opts (Some (mk_options 0 DefaultRequestTimeout))) = MaxInt64.
Proof.
  apply (startTimeout_zero_no_timeout (Some (mk_options 0 DefaultRequestTimeout))).
  reflexivity.
Defined.

(** A statistics line for a value encoded as itself. *)
Lemma stats_line_roundtrip_witness :
  watchStderr (@inl string goerr) (@started string)
    (server_stats_line statsPrefix "{}") =
  Ret (set_statsC (@started string)
         (mk_chan (buf (statsC (@started string)) ++ ["{}"])
                  (cap (statsC (@started string))) false)).
Proof.
  apply (stats_line_roundtrip string (@inl string goerr) (fun s => s));
    [reflexivity|reflexivity| |reflexivity|reflexivity|].
  - apply Z.leb_le; reflexivity.
  - apply Nat.ltb_lt; reflexivity.
Defined.

End SupervisorProps.

(** ** config-bpf in check mode *)

Module ConfigBPFProps.
Import ConfigBPF.

(** [m] only appends calls that satisfy [P] to the trace. *)
Definition appends_only {A} (P : oscall -> Prop) (m : M A) : Prop :=
  forall tr, exists ext, fst (m tr) = List.app tr ext /\ Forall P ext.

(** The calls check mode may make. *)
Definition check_mode_call (F : flags) (c : oscall) : Prop :=
  mutating c = false \/ c = CreateFile (stderrFile F) \/ c = CreateFile (stdoutFile F).

(** A device the check finds misconfigured. *)
Definition misconfigured (E : env) (bpfGID : Z) (dev : string) : bool :=
  match dev_stat E dev with
  | Some (gid, mode) => negb (gid =? bpfGID) || negb (Z.land mode groupRead =? groupRead)
  | None => false
  end.

(** A machine with two BPF devices owned by root (GID 0) with mode 0600,
    and an [access_bpf] group with GID 20. *)
Definition sample_env : env :=
  mk_env (Some (Some 20)) (Some ["/dev/bpf0"; "/dev/bpf1"; "/dev/null"]) (Some 256)
         (fun _ => true) (Some ["/dev/bpf0"; "/dev/bpf1"; "/dev/null"])
         (fun d => if String.eqb d "/dev/null" then Some (0, 438) else Some (0, 384))
         (fun _ => true) (fun _ => true).

Lemma ao_ret {A} P (x : A) : appends_only P (ret x).
Proof. intros tr; exists []; rewrite app_nil_r; split; [reflexivity|constructor]. Qed.

Lemma ao_exit {A} P e : appends_only P (ExitWith (A:=A) e).
Proof. intros tr; exists []; rewrite app_nil_r; split; [reflexivity|constructor]. Qed.

Lemma ao_emit P c : P c -> appends_only P (emit c).
Proof. intros H tr; exists [c]; split; [reflexivity|repeat constructor; assumption]. Qed.

Lemma ao_bind {A B} P (m : M A) (k : A -> M B) :
  appends_only P m -> (forall x, appends_only P (k x)) -> appends_only P (bind m k).
Proof.
  intros Hm Hk tr; unfold bind.
  destruct (Hm tr) as (ext1 & H1 & F1).
  destruct (m tr) as [tr1 [x|c]]; cbn in H1; subst tr1.
  - destruct (Hk x (List.app tr ext1)) as (ext2 & H2 & F2).
    exists (List.app ext1 ext2); rewrite H2, app_assoc; split; [reflexivity|].
    apply Forall_app; split; assumption.
  - exists ext1; split; [reflexivity|assumption].
Qed.

Ltac ao_step :=
  match goal with
  | |- appends_only _ (bind _ _) => apply ao_bind; [|intros ?]
  | |- appends_only _ (ret _) => apply ao_ret
  | |- appends_only _ (ExitWith _) => apply ao_exit
  | |- appends_only _ (emit _) => apply ao_emit
  | |- appends_only _ (if ?b then _ else _) => destruct b
  | |- appends_only _ (match ?x with _ => _ end) => destruct x
  end.

Lemma check_devices_ao F E g devs :
  appends_only (check_mode_call F) (check_devices E true g devs).
Proof.
  induction devs as [|d devs IH]; cbn [check_devices].
  - apply ao_ret.
  - apply ao_bind; [|intros _; exact IH].
    unfold check_device; repeat ao_step; left; reflexivity.
Qed.

Lemma check_device_ok E g d tr gid mode :
  dev_stat E d = Some (gid, mode) -> misconfigured E g d = false ->
  check_device E true g d tr = (List.app tr [StatDev d], Done tt).
Proof.
  intros Hs Hm; unfold misconfigured in Hm; rewrite Hs in Hm.
  apply orb_false_elim in Hm as [H1 H2].
  unfold check_device, bind, emit; rewrite Hs, H1, H2; reflexivity.
Qed.

Lemma check_device_bad E g d tr :
  misconfigured E g d = true -> snd (check_device E true g d tr) = Exited exitcodes.FailedCheck.
Proof.
  unfold misconfigured, check_device, bind, emit; cbn [snd].
  destruct (dev_stat E d) as [[gid mode]|]; [|discriminate].
  destruct (gid =? g), (Z.land mode groupRead =? groupRead); cbn; congruence.
Qed.

Lemma check_devices_failed E g devs tr :
  (forall d, In d devs -> dev_stat E d <> None) ->
  existsb (misconfigured E g) devs = true ->
  snd (check_devices E true g devs tr) = Exited exitcodes.FailedCheck.
Proof.
  revert tr; induction devs as [|d devs IH]; intros tr Hs Hb; [discriminate|].
  cbn [check_devices existsb] in *.
  destruct (misconfigured E g d) eqn:Hm.
  - unfold bind at 1; pose proof (check_device_bad E g d tr Hm) as Hd.
    destruct (check_device E true g d tr) as [tr' [[]|c]]; cbn in Hd; [discriminate|].
    inversion Hd; reflexivity.
  - destruct (dev_stat E d) as [[gid mode]|] eqn:Hd; [|exfalso; apply (Hs d); [left|]; auto].
    unfold bind at 1; rewrite (check_device_ok E g d tr gid mode Hd Hm).
    apply IH; [intros d' Hd'; apply Hs; right; exact Hd'|exact Hb].
Qed.

Lemma main_ao F E :
  testMode F = true -> appends_only (check_mode_call F) (main F E).
Proof.
  intros Ht; unfold main, getMaxBPFDevices; rewrite Ht; cbn [negb].
  repeat (ao_step; try solve [left; reflexivity
                             | right; left; reflexivity
                             | right; right; reflexivity]).
  all: first [apply check_devices_ao | intros tr; apply (check_devices_ao F E _ _ tr)].
Qed.

Lemma main_failed_check F E tr g entries mx after :
  testMode F = true ->
  group_gid E = Some (Some g) -> dev_entries E = Some entries ->
  sysctl_max E = Some mx -> dev_entries_after E = Some after ->
  (forall d, In d (filter is_bpf_device after) -> dev_stat E d <> None) ->
  existsb (misconfigured E g) (filter is_bpf_device after) = true ->
  snd (main F E tr) = Exited exitcodes.FailedCheck.
Proof.
  intros Ht Hg He Hs Ha Hok Hb.
  unfold main, getMaxBPFDevices; rewrite Ht, Hg, He, Hs, Ha.
  destruct (filter is_bpf_device after) as [|d l] eqn:Hf; [discriminate|].
  unfold bind at 1.
  destruct (negb (String.eqb (stderrFile F) "")), (negb (String.eqb (stdoutFile F) ""));
    cbn [emit ret bind negb];
    apply check_devices_failed; assumption.
Qed.

(** C9 (counterexample): with [-test] and [-stderr /tmp/config-bpf.err],
    config-bpf creates (truncates) /tmp/config-bpf.err through os.Create,
    a call that writes a file, before it finds the devices misconfigured
    and exits with FailedCheck. *)
Lemma check_mode_truncates_stderr :
  let F := mk_flags true "" "/tmp/config-bpf.err" in
  testMode F = true /\
  In (CreateFile "/tmp/config-bpf.err") (fst (run_main F sample_env)) /\
  mutating (CreateFile "/tmp/config-bpf.err") = true /\
  snd (run_main F sample_env) = exitcodes.FailedCheck.
Proof.
  cbv zeta; split; [reflexivity|]; split; [|split; reflexivity].
  vm_compute; left; reflexivity.
Qed.

(** C9 (amended): in check mode config-bpf makes no chown, no chmod and
    no device-creating read: the only mutating calls it makes are the
    os.Create truncations of the files named by -stderr and -stdout.
    When the group lookup, the walks of /dev and sysctl succeed and
    every BPF device can be stat'ed, a device with the wrong group or
    without group read makes it exit with FailedCheck. *)
Theorem check_mode_only_truncates (F : flags) (E : env) :
  testMode F = true ->
  (forall c, In c (fst (run_main F E)) -> mutating c = true ->
     c = CreateFile (stderrFile F) \/ c = CreateFile (stdoutFile F)) /\
  (forall g entries mx after,
     group_gid E = Some (Some g) -> dev_entries E = Some entries ->
     sysctl_max E = Some mx -> dev_entries_after E = Some after ->
     (forall d, In d (filter is_bpf_device after) -> dev_stat E d <> None) ->
     existsb (misconfigured E g) (filter is_bpf_device after) = true ->
     snd (run_main F E) = exitcodes.FailedCheck).
Proof.
  intros Ht; split.
  - intros c Hin Hm.
    destruct (main_ao F E Ht []) as (ext & Hext & Hall).
    assert (Hfst : fst (run_main F E) = fst (main F E [])).
    { unfold run_main; destruct (main F E []) as [tr [x|code]]; reflexivity. }
    rewrite Hfst, Hext in Hin; cbn in Hin.
    rewrite Forall_forall in Hall; destruct (Hall c Hin) as [H|H]; [congruence|exact H].
  - intros g entries mx after Hg He Hs Ha Hok Hb.
    pose proof (main_failed_check F E [] g entries mx after Ht Hg He Hs Ha Hok Hb) as Hm.
    unfold run_main; destruct (main F E []) as [tr [x|code]]; cbn in Hm |- *; congruence.
Qed.

(** The run of the counterexample: config-bpf in check mode. *)
Lemma check_mode_only_truncates_witness :
  snd (run_main (mk_flags true "" "/tmp/config-bpf.err") sample_env) = exitcodes.FailedCheck.
Proof.
  refine (proj2 (check_mode_only_truncates (mk_flags true "" "/tmp/config-bpf.err") sample_env
                   eq_refl) 20 _ 256 _ eq_refl eq_refl eq_refl eq_refl _ _).
  - vm_compute; intros d [<-|[<-|[]]]; discriminate.
  - vm_compute; reflexivity.
Defined.

End ConfigBPFProps.

(** ** Error chains and output formatting *)

Module ErrorProps.


(** The string holds no newline byte. *)
Definition no_nl (s : string) : bool :=
  forallb (fun c => negb (Ascii.eqb c nl)) (list_ascii_of_string s).



(** A [BadInputError] exits with BadInput unless its cause carries a
    FailedCheck or an Outdated error, which take precedence. *)
Theorem ExitWith_ErrorBadInput (msg : string) (cause : option goerr) :
  exitcodes.ExitWith (exitcodes.ErrorBadInput msg cause) =
    match cause with
    | Some c =>
        let k := exitcodes.ExitWith c in
        if (k =? exitcodes.FailedCheck) || (k =? exitcodes.Outdated) then k
        else exitcodes.BadInput
    | None => exitcodes.BadInput
    end.
Proof.
  destruct cause as [c|]; [|reflexivity].
  unfold exitcodes.ErrorBadInput, exitcodes.ExitWith; cbn [errors_as has_type orb].
  destruct (errors_as TFailedCheck c); [reflexivity|].
  destruct (errors_as TOutdated c); [reflexivity|].
  destruct (errors_as TBadInput c); reflexivity.
Qed.

Lemma split_on_no_nl s : no_nl s = true -> split_on nl s = [s].
Proof.
  induction s as [|c r IH]; [reflexivity|].
  unfold no_nl; cbn [list_ascii_of_string forallb]; intros H.
  apply andb_true_iff in H as [Hc Hr]; apply negb_true_iff in Hc.
  cbn [split_on]; rewrite Hc, IH by exact Hr; reflexivity.
Qed.

Lemma split_on_nl_pieces s : Forall (fun w => no_nl w = true) (split_on nl s).
Proof.
  induction s as [|c r IH]; cbn [split_on]; [repeat constructor|].
  destruct (Ascii.eqb c nl) eqn:Hc; [constructor; [reflexivity|exact IH]|].
  destruct (split_on nl r) as [|w ws]; [constructor; [unfold no_nl; cbn [list_ascii_of_string forallb]; rewrite Hc; reflexivity|constructor]|].
  inversion IH as [|? ? Hw Hws]; subst; constructor; [|exact Hws].
  unfold no_nl in *; cbn [list_ascii_of_string forallb]; rewrite Hc, Hw; reflexivity.
Qed.

Lemma split_on_nonempty sep s : split_on sep s <> [].
Proof.
  destruct s as [|c r]; cbn [split_on]; [discriminate|].
  destruct (Ascii.eqb c sep); [discriminate|destruct (split_on sep r); discriminate].
Qed.

Lemma split_on_nl_many s : no_nl s = false -> (2 <= length (split_on nl s))%nat.
Proof.
  induction s as [|c r IH]; [discriminate|].
  unfold no_nl; cbn [list_ascii_of_string forallb]; intros H; cbn [split_on].
  destruct (Ascii.eqb c nl) eqn:Hc.
  - cbn [length]; destruct (split_on nl r) eqn:E; [|cbn; lia].
    exfalso; exact (split_on_nonempty nl r E).
  - cbn [negb andb] in H; specialize (IH H).
    destruct (split_on nl r) as [|w ws]; cbn in *; lia.
Qed.

Lemma last_in {A} (l : list A) d : l <> [] -> In (List.last l d) l.
Proof.
  induction l as [|x l IH]; [contradiction|intros _].
  destruct l as [|y l]; [left; reflexivity|right; apply IH; discriminate].
Qed.

(** [lastLine] returns one line: its result never holds a newline. *)
Theorem lastLine_single_line (b : string) : no_nl (lastLine b) = true.
Proof.
  unfold lastLine.
  pose proof (split_on_nl_pieces (trim_space b)) as H.
  destruct (split_on nl (trim_space b)) as [|w ws] eqn:E; [reflexivity|].
  rewrite Forall_forall in H; apply H, last_in; discriminate.
Qed.

(** [fmtOutputForLog] returns the trimmed output, prefixed with a newline
    exactly when the trimmed output spans several lines. *)
Theorem fmtOutputForLog_spec (b : string) :
  fmtOutputForLog b =
    if no_nl (trim_space b) then trim_space b else String nl (trim_space b).
Proof.
  unfold fmtOutputForLog.
  destruct (no_nl (trim_space b)) eqn:H.
  - rewrite split_on_no_nl by exact H; reflexivity.
  - pose proof (split_on_nl_many _ H) as Hl.
    destruct (split_on nl (trim_space b)) as [|w [|w' ws]]; cbn in Hl; try lia; reflexivity.
Qed.

End ErrorProps.

(** ** config-bpf: devices, the trigger loop and exit codes *)

Module ConfigBPFMore.
Import ConfigBPF ConfigBPFProps.

Definition is_digit (c : ascii) : bool :=
  Nat.leb 48 (Ascii.nat_of_ascii c) && Nat.leb (Ascii.nat_of_ascii c) 57.

Definition all_digits (d : string) : bool := forallb is_digit (list_ascii_of_string d).

(** The device number the first walk reads from a path, if any. *)
Definition parsed_device (path : string) : option Z :=
  match bpf_submatch path with Some d => Atoi_digits d | None => None end.




Lemma prefix_inv (a b : string) : String.prefix a b = true -> exists r, b = a ++ r.
Proof.
  revert b; induction a as [|x a IH]; intros b H; [exists b; reflexivity|].
  destruct b as [|y b]; [discriminate|]; cbn in H.
  destruct (ascii_dec x y) as [<-|]; [|discriminate].
  destruct (IH b H) as [r ->]; exists r; reflexivity.
Qed.

Lemma digit_value_is_digit c : is_digit c = match digit_value c with Some _ => true | None => false end.
Proof.
  unfold is_digit, digit_value.
  destruct (Nat.leb_spec 48 (Ascii.nat_of_ascii c)), (Nat.leb_spec (Ascii.nat_of_ascii c) 57),
    (48 <=? Z.of_nat (Ascii.nat_of_ascii c)) eqn:H1, (Z.of_nat (Ascii.nat_of_ascii c) <=? 57) eqn:H2;
    cbn; try reflexivity; rewrite ?Z.leb_le, ?Z.leb_gt in *; lia.
Qed.

Lemma digits_value_some acc d :
  (exists v, digits_value acc d = Some v) <-> all_digits d = true.
Proof.
  revert acc; induction d as [|c d IH]; intros acc; cbn [digits_value].
  - split; [reflexivity|intros _; eauto].
  - unfold all_digits; cbn [list_ascii_of_string forallb]; fold (all_digits d).
    rewrite digit_value_is_digit.
    destruct (digit_value c) as [v|]; cbn [andb]; [apply IH|].
    split; [intros [? H]; discriminate|discriminate].
Qed.

(** The device regexp: a path is a BPF device exactly when it is
    [/dev/bpf] followed by one or more decimal digits. *)
Theorem is_bpf_device_iff (path : string) :
  is_bpf_device path = true <->
  exists d, path = "/dev/bpf" ++ d /\ d <> "" /\ all_digits d = true.
Proof.
  unfold is_bpf_device, bpf_submatch; split.
  - destruct (String.prefix devPrefix path) eqn:Hp; [|discriminate].
    destruct (prefix_inv _ _ Hp) as [r ->].
    rewrite SupervisorProps.length_app.
    replace (String.length devPrefix + String.length r - String.length devPrefix)%nat
      with (String.length r) by lia.
    rewrite SupervisorProps.substring_app.
    destruct r as [|c r]; [discriminate|].
    destruct (digits_value 0 (String c r)) as [v|] eqn:Hd; [|discriminate].
    intros _; exists (String c r); split; [reflexivity|split; [discriminate|]].
    apply (digits_value_some 0); eauto.
  - intros (d & -> & Hne & Hd).
    change "/dev/bpf" with devPrefix; rewrite SupervisorProps.prefix_app.
    rewrite SupervisorProps.length_app.
    replace (String.length devPrefix + String.length d - String.length devPrefix)%nat
      with (String.length d) by lia.
    rewrite SupervisorProps.substring_app.
    apply (digits_value_some 0) in Hd as [v Hv].
    destruct d as [|c r]; [contradiction|]; rewrite Hv; reflexivity.
Qed.

Lemma start_device_fold entries acc :
  let r := fold_left (fun startDevice path =>
                 match bpf_submatch path with
                 | Some d => match Atoi_digits d with
                             | Some dev => if startDevice <? dev then dev else startDevice
                             | None => startDevice
                             end
                 | None => startDevice
                 end) entries acc in
  acc <= r /\
  (forall path dev, In path entries -> parsed_device path = Some dev -> dev <= r) /\
  (r = acc \/ exists path, In path entries /\ parsed_device path = Some r).
Proof.
  revert acc; induction entries as [|path entries IH]; intros acc; cbn zeta.
  - cbn; split; [lia|split; [intros ? ? []|left; reflexivity]].
  - cbn [fold_left].
    set (acc' := match bpf_submatch path with
                 | Some d => match Atoi_digits d with
                             | Some dev => if acc <? dev then dev else acc
                             | None => acc
                             end
                 | None => acc
                 end).
    assert (Hacc : acc <= acc' /\ (forall dev, parsed_device path = Some dev -> dev <= acc') /\
                   (acc' = acc \/ parsed_device path = Some acc')).
    { unfold acc', parsed_device.
      destruct (bpf_submatch path) as [d|]; [|split; [lia|split; [discriminate|left; reflexivity]]].
      destruct (Atoi_digits d) as [dev|]; [|split; [lia|split; [discriminate|left; reflexivity]]].
      destruct (Z.ltb_spec acc dev); (split; [lia|split; [intros ? H'; injection H' as <-; lia|]]);
        [right; reflexivity|left; reflexivity]. }
    destruct (IH acc') as (H1 & H2 & H3); destruct Hacc as (A1 & A2 & A3).
    split; [lia|split].
    + intros p dev [<-|Hin] Hp; [specialize (A2 dev Hp); lia|exact (H2 p dev Hin Hp)].
    + destruct H3 as [H3|(p & Hin & Hp)].
      * rewrite H3; destruct A3 as [A3|A3]; [left; exact A3|right; exists path; split; [left|]; auto].
      * right; exists p; split; [right; exact Hin|exact Hp].
Qed.

(** The first walk of /dev: [startDevice] is the highest device number
    [strconv.Atoi] reads from a [/dev/bpfN] path, or 0 when there is
    none (numbers above MaxInt64 are skipped). *)
Theorem start_device_max (entries : list string) :
  0 <= start_device entries /\
  (forall path dev, In path entries -> parsed_device path = Some dev -> dev <= start_device entries) /\
  (start_device entries = 0 \/
   exists path, In path entries /\ parsed_device path = Some (start_device entries)).
Proof. exact (start_device_fold entries 0). Qed.

Lemma trigger_loop_spec E n i tr :
  exists ext, trigger_loop E i n tr = (List.app tr ext, Done tt) /\
    (forall c, In c ext -> exists d, c = OpenRead d) /\
    (forall d, In (OpenRead d) ext <->
       i <= d < i + Z.of_nat n /\ forall j, i <= j < d -> open_read_ok E j = true).
Proof.
  revert i tr; induction n as [|n IH]; intros i tr.
  - exists []; rewrite app_nil_r; split; [reflexivity|split; [intros ? []|]].
    intros d; split; [intros []|intros [H _]; lia].
  - cbn [trigger_loop]; unfold bind at 1, emit.
    destruct (open_read_ok E i) eqn:Hok.
    + destruct (IH (i + 1) (List.app tr [OpenRead i])) as (ext & He & Hc & Hd).
      rewrite He, <- app_assoc; exists (OpenRead i :: ext); split; [reflexivity|split].
      * intros c [<-|Hin]; [eauto|exact (Hc c Hin)].
      * intros d; split.
        -- intros [Hi|Hin]; [injection Hi as <-; split; [lia|intros; lia]|].
           apply Hd in Hin as [Hr Hj]; split; [lia|].
           intros j Hj'; destruct (Z.eq_dec j i) as [->|]; [exact Hok|apply Hj; lia].
        -- intros [Hr Hj]; destruct (Z.eq_dec d i) as [->|Hne]; [left; reflexivity|right].
           apply Hd; split; [lia|intros j Hj'; apply Hj; lia].
    + exists [OpenRead i]; split; [reflexivity|split].
      * intros c [<-|[]]; eauto.
      * intros d; split.
        -- intros [Hi|[]]; injection Hi as <-; split; [lia|intros; lia].
        -- intros [Hr Hj]; destruct (Z.eq_dec d i) as [->|Hne]; [left; reflexivity|].
           specialize (Hj i ltac:(lia)); congruence.
Qed.

(** The device-creating loop [for i := startDevice; i < endDevice-1; i++]
    opens exactly the devices from [startDevice] up to and including the
    first one whose empty read fails, all below [endDevice - 1]; it makes
    no other call and never ends the run. *)
Theorem trigger_loop_opens (E : env) (startDevice endDevice : Z) (tr : list oscall) :
  exists ext,
    trigger_loop E startDevice (Z.to_nat (endDevice - 1 - startDevice)) tr =
      (List.app tr ext, Done tt) /\
    (forall c, In c ext -> exists d, c = OpenRead d) /\
    (forall d, In (OpenRead d) ext <->
       startDevice <= d < endDevice - 1 /\
       forall j, startDevice <= j < d -> open_read_ok E j = true).
Proof.
  destruct (trigger_loop_spec E (Z.to_nat (endDevice - 1 - startDevice)) startDevice tr)
    as (ext & He & Hc & Hd).
  exists ext; split; [exact He|split; [exact Hc|]].
  intros d; rewrite Hd; split; intros [Hr Hj]; (split; [|exact Hj]); lia.
Qed.


















End ConfigBPFMore.

(** ** Install: the sequence of tlconfig runs *)

Section InstallMore.
Import Install.

(** Install runs tlconfig at most three times, in one of four sequences:
    nothing, the check alone, the check and the elevated run, or the
    check, the elevated run and the re-check.  The elevated run is made
    at most once. *)
Theorem Install_trace_shape (E : env) (prompt icon : string) (opts : InstallOptions) :
  let tr := fst (Install E prompt icon opts) in
  tr = [] \/ tr = [CheckRun] \/ tr = [CheckRun; ElevatedRun prompt icon] \/
  tr = [CheckRun; ElevatedRun prompt icon; CheckRun].
Proof.
  cbv zeta; unfold Install.
  destruct (negb (String.eqb (goos E) "darwin")); [left; reflexivity|].
  destruct (setup E); [left; reflexivity|].
  destruct (classify (run (goos E) "" (check1 E)) (false, false)) as [fc od].
  destruct (fc || od && Overwrite opts).
  - unfold configure.
    destruct (err (run (goos E) prompt (apply E))); cbn; [right; right; left|right; right; right];
      reflexivity.
  - destruct (err (run (goos E) "" (check1 E))); [destruct (od && negb (Overwrite opts))|];
      right; left; reflexivity.
Qed.

(** Once the elevated run has succeeded, Install returns nil exactly when
    the re-check exits without error: unlike the first check, a re-check
    that reports Outdated while Overwrite is off is an error. *)
Theorem Install_after_elevation (E : env) (prompt icon : string) (opts : InstallOptions) :
  goos E = "darwin" -> setup E = None -> needs_change E opts -> err (apply E) = None ->
  (snd (Install E prompt icon opts) = None <-> err (check2 E) = None).
Proof.
  intros Hos Hsetup Hn Happly.
  rewrite (Install_configures E prompt icon opts Hos Hsetup Hn); cbn [snd].
  unfold configure, run; rewrite Hos.
  destruct (String.eqb prompt ""); rewrite ?Happly; cbn;
    unfold verify, classify;
    destruct (err (check2 E)) as [e3|]; cbn;
    [|split; reflexivity| |split; reflexivity];
    (destruct (as_exit_code e3) as [c|];
     [destruct ((c =? exitcodes.FailedCheck) || (c =? exitcodes.Outdated) && Overwrite opts)|]);
    cbn; split; discriminate.
Qed.

(** The first check reports FailedCheck and the re-check reports Outdated
    while Overwrite is off. *)
Lemma Install_after_elevation_witness :
  snd (Install (mk_env "darwin" None (mk_result "" (Some (ExitError 3)))
                  (mk_result "" None) (mk_result "" (Some (ExitError 4))))
               "Allow?" "icon.png" (mk_opts false)) = None <->
  Some (ExitError 4) = None.
Proof.
  apply (Install_after_elevation (mk_env "darwin" None (mk_result "" (Some (ExitError 3)))
                                   (mk_result "" None) (mk_result "" (Some (ExitError 4))))
                                 "Allow?" "icon.png" (mk_opts false));
    [reflexivity|reflexivity| |reflexivity].
  unfold needs_change; left; reflexivity.
Defined.

End InstallMore.

(** ** Supervisor: buffers, dropped events and ignored lines *)

Module SupervisorMore.
Import Supervisor SupervisorProps.

(** Calls of [sendStats] and [sendError] one after the other. *)
Fixpoint sendStats_all {CaptureStats} (p : TrafficLogProcess CaptureStats) (xs : list CaptureStats)
  : outcome (TrafficLogProcess CaptureStats) :=
  match xs with
  | [] => Ret p
  | x :: r => p' <- sendStats p x ;; sendStats_all p' r
  end.

Fixpoint sendError_all {CaptureStats} (p : TrafficLogProcess CaptureStats) (es : list goerr)
  : outcome (TrafficLogProcess CaptureStats) :=
  match es with
  | [] => Ret p
  | e :: r => p' <- sendError p e ;; sendError_all p' r
  end.


Section Bounded.
Variable CaptureStats : Type.






End Bounded.


Lemma firstn_app_le {A} (n : nat) (b r : list A) :
  (n <= length b)%nat -> firstn n (b ++ r) = firstn n b.
Proof.
  intros H; rewrite firstn_app; replace (n - length b)%nat with 0%nat by lia.
  rewrite firstn_O, app_nil_r; reflexivity.
Qed.

(** Producers drop the newest events: on an open supervisor whose
    channels are open and not over capacity, a run of [sendStats] calls
    leaves the statistics buffer holding the oldest events that fit, in
    order, and a run of [sendError] calls does the same for errors; the
    other channel is untouched. *)
Theorem sends_keep_oldest (CaptureStats : Type) (p : TrafficLogProcess CaptureStats)
    (xs : list CaptureStats) (es : list goerr) :
  cclosed (closed p) = false ->
  cclosed (statsC p) = false -> (length (buf (statsC p)) <= cap (statsC p))%nat ->
  cclosed (errC p) = false -> (length (buf (errC p)) <= cap (errC p))%nat ->
  sendStats_all p xs =
    Ret (set_statsC p (mk_chan (firstn (cap (statsC p)) (buf (statsC p) ++ xs))
                               (cap (statsC p)) false)) /\
  sendError_all p es =
    Ret (set_errC p (mk_chan (firstn (cap (errC p)) (buf (errC p) ++ es))
                             (cap (errC p)) false)).
Proof.
  intros Hc Hs Hsl He Hel; split.
  - destruct p as [a ec sc cc]; cbn in *.
    revert sc Hs Hsl; induction xs as [|x r IH]; intros sc Hs Hsl; cbn [sendStats_all].
    + rewrite app_nil_r, firstn_all2 by exact Hsl.
      destruct sc as [b n cl]; cbn in *; subst cl; reflexivity.
    + unfold sendStats; cbn [closed statsC]; rewrite Hc, (try_send_open sc x Hs); cbn [bind].
      destruct (Nat.ltb_spec (length (buf sc)) (cap sc)).
      * unfold set_statsC at 1; cbn [proc_alive errC closed].
        rewrite (IH (mk_chan (buf sc ++ [x]) (cap sc) false)) by (cbn; rewrite ?List.length_app; cbn; lia).
        cbn; rewrite <- app_assoc; reflexivity.
      * unfold set_statsC at 1; cbn [proc_alive errC closed statsC].
        destruct sc as [b n cl]; cbn in *; subst cl.
        assert (length b = n) as Hn by lia.
        rewrite (IH (mk_chan b n false)) by (cbn; auto; lia); cbn.
        rewrite !firstn_app_le by lia; reflexivity.
  - destruct p as [a ec sc cc]; cbn in *.
    revert ec He Hel; induction es as [|e r IH]; intros ec He Hel; cbn [sendError_all].
    + rewrite app_nil_r, firstn_all2 by exact Hel.
      destruct ec as [b n cl]; cbn in *; subst cl; reflexivity.
    + unfold sendError; cbn [closed errC]; rewrite Hc, (try_send_open ec e He); cbn [bind].
      destruct (Nat.ltb_spec (length (buf ec)) (cap ec)).
      * unfold set_errC at 1; cbn [proc_alive statsC closed].
        rewrite (IH (mk_chan (buf ec ++ [e]) (cap ec) false)) by (cbn; rewrite ?List.length_app; cbn; lia).
        cbn; rewrite <- app_assoc; reflexivity.
      * unfold set_errC at 1; cbn [proc_alive statsC closed errC].
        destruct ec as [b n cl]; cbn in *; subst cl.
        rewrite (IH (mk_chan b n false)) by (cbn; auto; lia); cbn.
        rewrite !firstn_app_le by lia; reflexivity.
Qed.

(** Twelve statistics events sent to a fresh supervisor: the first ten
    are kept. *)
Lemma sends_keep_oldest_witness :
  sendStats_all (@started nat) (seq 1 12) =
    Ret (set_statsC (@started nat) (mk_chan (firstn 10 (seq 1 12)) 10 false)) /\
  sendError_all (@started nat) [] = Ret (set_errC (@started nat) (mk_chan [] 10 false)).
Proof.
  apply (sends_keep_oldest nat (@started nat) (seq 1 12) []);
    [reflexivity|reflexivity| |reflexivity|]; apply Nat.leb_le; reflexivity.
Defined.


(** [statsInterval] never goes below [MinimumStatsInterval] when the
    library default does not, and keeps a positive interval that is not
    below the minimum. *)
Theorem statsInterval_clamped (DefaultStatsInterval MinimumStatsInterval StatsInterval : Z) :
  MinimumStatsInterval <= DefaultStatsInterval ->
  MinimumStatsInterval <= statsInterval DefaultStatsInterval MinimumStatsInterval StatsInterval /\
  (0 < StatsInterval -> MinimumStatsInterval <= StatsInterval ->
   statsInterval DefaultStatsInterval MinimumStatsInterval StatsInterval = StatsInterval).
Proof.
  intros Hd; unfold statsInterval.
  destruct (Z.leb_spec StatsInterval 0), (Z.ltb_spec StatsInterval MinimumStatsInterval);
    split; intros; lia.
Qed.

(** A default of 1000 and a minimum of 100, with a requested interval of 50. *)
Lemma statsInterval_clamped_witness :
  100 <= statsInterval 1000 100 50.
Proof. refine (proj1 (statsInterval_clamped 1000 100 50 _)); lia. Defined.

End SupervisorMore.
